(** * Recent Files plugin (src/main.ts): the MRU list and its invariants

    A shallow embedding of the data kept by the plugin ([RecentFilesData]),
    of the methods that read and mutate it ([updateData], [update],
    [redraw], [loadData], [saveData], [pruneOmittedFiles], [shouldAddFile])
    and of the JavaScript built-ins whose corner cases matter for them
    ([Array.prototype.splice], [String.prototype.startsWith],
    [Array.prototype.find], [Object.assign]).

    Modelling choices.
    - A JavaScript string is a [string]; [!==] and [===] on strings are
      decidable equality, [s.length > 0] is [0 < String.length s].
    - [maxLength : number] ranges over the integers [Z], the negative ones
      included.  Fractions and NaN have no term in the model: every
      statement about [maxLength] below is a statement about an integer.
    - The module allocates exactly one object of type [RecentFilesData], the
      literal bound to [DEFAULT_DATA].  [Object.assign] returns its target,
      so [plugin.data], the view's [this.data] and [DEFAULT_DATA] are three
      names for that one object.  The model therefore has one store, the
      field [data] of [World]; every method reads and writes it.
    - Methods are computations in a state-and-exception monad [M] over
      [World]: the store, the log of snapshots handed to the host's
      [saveData], the host's active file, the children of the view's content
      element and the number of times they were replaced. *)

From Stdlib Require Import ZArith String.
From stdpp Require Import base tactics option list strings.

Local Open Scope Z_scope.

(** ** Data model *)

Record File := mkFile { path : string; basename : string }.

Record RecentFilesData := mkData {
  recentFiles : list File;
  omittedPaths : list string;
  maxLength : Z;
}.

(** The contents of the [DEFAULT_DATA] literal when the module is evaluated. *)
Definition DEFAULT_DATA : RecentFilesData :=
  {| recentFiles := []; omittedPaths := []; maxLength := 5 |}.

(** What the host's [loadData] resolves to: [None] when nothing was saved
    ([null]), otherwise an object that has some of the three properties. *)
Record Blob := mkBlob {
  blob_recentFiles : option (list File);
  blob_omittedPaths : option (list string);
  blob_maxLength : option Z;
}.

(** A DOM element as [redraw] builds it: class list, text content, whether
    [handleFileClick] is registered on it, children in document order. *)
#[warnings="-register-all"] Inductive El :=
  Div (classes : list string) (text : option string) (onClick : bool) (children : list El).

Definition classes_of (e : El) : list string := let (c, _, _, _) := e in c.
Definition text_of (e : El) : option string := let (_, t, _, _) := e in t.
Definition children_of (e : El) : list El := let (_, _, _, k) := e in k.

(** ** JavaScript built-ins *)

Module JS.

(** [arr.splice(start, deleteCount, ...items)], the array afterwards.
    A negative [start] counts from the end and is clamped at 0; a [start]
    past the end is clamped to the length; [deleteCount] is clamped to
    what is left after [start]. *)
Definition splice {A} (arr : list A) (start deleteCount : Z) (items : list A) : list A :=
  let len := Z.of_nat (length arr) in
  let actualStart := if decide (start < 0) then Z.max (len + start) 0 else Z.min start len in
  let actualDeleteCount := Z.min (Z.max deleteCount 0) (len - actualStart) in
  take (Z.to_nat actualStart) arr ++ items
    ++ drop (Z.to_nat (actualStart + actualDeleteCount)) arr.

(** [s.startsWith(searchString)] *)
Definition startsWith (s searchString : string) : bool := String.prefix searchString s.

(** [arr.find(callback)]: the first element that satisfies the callback,
    [None] for [undefined]. *)
Definition find {A} (P : A → Prop) `{∀ x, Decision (P x)} (arr : list A) : option A :=
  snd <$> list_find P arr.

(** [Object.assign(target, source)] on the three properties of
    [RecentFilesData]: every property the source has overwrites the
    target's; a [null] source is skipped.  The result is the target. *)
Definition Object_assign (target : RecentFilesData) (source : option Blob) : RecentFilesData :=
  match source with
  | None => target
  | Some b =>
      {| recentFiles := default (recentFiles target) (blob_recentFiles b);
         omittedPaths := default (omittedPaths target) (blob_omittedPaths b);
         maxLength := default (maxLength target) (blob_maxLength b) |}
  end.

(** [s.split(sep)] for a separator of one character: the pieces between
    the separators, in order; the empty string gives one empty piece. *)
Fixpoint split (sep : Ascii.ascii) (s : string) : list string :=
  match s with
  | EmptyString => [EmptyString]
  | String c s' =>
      if decide (c = sep) then EmptyString :: split sep s'
      else match split sep s' with
           | piece :: pieces => String c piece :: pieces
           | [] => [String c EmptyString]
           end
  end.

(** [arr.join(sep)]: the empty array gives the empty string. *)
Fixpoint join (sep : string) (arr : list string) : string :=
  match arr with
  | [] => EmptyString
  | x :: arr' =>
      match arr' with
      | [] => x
      | _ :: _ => x +:+ sep +:+ join sep arr'
      end
  end.

End JS.

(** ** The state-and-exception monad *)

Inductive exn := TypeError.

Inductive outcome (A : Type) :=
  | Return (a : A)
  | Throw (e : exn).
Arguments Return {A} a.
Arguments Throw {A} e.

Record World := mkWorld {
  data : RecentFilesData;
  saved : list RecentFilesData;
  activeFile : option File;
  contentEl : list El;
  redraws : nat;
}.

Definition M (A : Type) : Type := World → outcome A * World.

#[export] Instance M_ret : MRet M := λ A a w, (Return a, w).
#[export] Instance M_bind : MBind M := λ A B f c w,
  match c w with
  | (Return a, w') => f a w'
  | (Throw e, w') => (Throw e, w')
  end.

Definition exec {A} (c : M A) (w : World) : World := (c w).2.
Definition result {A} (c : M A) (w : World) : outcome A := (c w).1.

Definition throw {A} (e : exn) : M A := λ w, (Throw e, w).

Definition get_data : M RecentFilesData := λ w, (Return (data w), w).

Definition put_data (d : RecentFilesData) : M unit := λ w,
  (Return (),
   {| data := d; saved := saved w; activeFile := activeFile w;
      contentEl := contentEl w; redraws := redraws w |}).

Definition with_recentFiles (d : RecentFilesData) (l : list File) : RecentFilesData :=
  {| recentFiles := l; omittedPaths := omittedPaths d; maxLength := maxLength d |}.

(** [this.data.recentFiles = v] *)
Definition set_recentFiles (v : list File) : M unit :=
  d ← get_data; put_data (with_recentFiles d v).

(** [this.plugin.data.omittedPaths = v], the first statement of the
    settings tab's [onChange] *)
Definition set_omittedPaths (v : list string) : M unit :=
  d ← get_data;
  put_data {| recentFiles := recentFiles d; omittedPaths := v; maxLength := maxLength d |}.

(** ** The plugin *)

(** [shouldAddFile] on the store [d]: no non-empty omitted path is a prefix
    of the file's path. *)
Definition shouldAddFile_in (d : RecentFilesData) (file : File) : bool :=
  bool_decide
    (JS.find (λ omittedPath, JS.startsWith (path file) omittedPath = true)
       (filter (λ path, (0 < String.length path)%nat) (omittedPaths d)) = None).

Definition shouldAddFile (file : File) : M bool :=
  d ← get_data; mret (shouldAddFile_in d file).

(** [saveData]: hands the store to the host, which serialises it. *)
Definition saveData : M unit := λ w,
  (Return (),
   {| data := data w; saved := saved w ++ [data w]; activeFile := activeFile w;
      contentEl := contentEl w; redraws := redraws w |}).

(** [loadData]: [this.data = Object.assign(DEFAULT_DATA, await super.loadData())].
    The target is the store itself. *)
Definition loadData (loaded : option Blob) : M unit :=
  d ← get_data; put_data (JS.Object_assign d loaded).

Definition updateData (file : File) : M unit :=
  d ← get_data;
  set_recentFiles
    (filter (λ currFile, basename currFile ≠ basename file) (recentFiles d));;
  d ← get_data;
  set_recentFiles
    (JS.splice (recentFiles d) 0 0 [{| basename := basename file; path := path file |}]);;
  d ← get_data;
  let toRemove := Z.of_nat (length (recentFiles d)) - maxLength d in
  (if decide (0 < toRemove)
   then set_recentFiles
          (JS.splice (recentFiles d) (Z.of_nat (length (recentFiles d)) - toRemove) toRemove [])
   else mret ());;
  saveData.

Definition pruneOmittedFiles : M unit :=
  d ← get_data;
  set_recentFiles (filter (λ file, shouldAddFile_in d file = true) (recentFiles d));;
  saveData.

(** [this.app.workspace.getActiveFile()], [null] when no file is active. *)
Definition getActiveFile : M (option File) := λ w, (Return (activeFile w), w).

(** [contentEl.empty(); contentEl.appendChild(rootEl)] *)
Definition replace_content (rootEl : El) : M unit := λ w,
  (Return (),
   {| data := data w; saved := saved w; activeFile := activeFile w;
      contentEl := [rootEl]; redraws := S (redraws w) |}).

(** [arr.forEach(callback)] for a callback that updates a local [s] and may
    throw; an exception ends the loop. *)
Fixpoint forEach {A S} (callback : A → S → outcome S) (arr : list A) (s : S) : outcome S :=
  match arr with
  | [] => Return s
  | x :: arr' =>
      match callback x s with
      | Return s' => forEach callback arr' s'
      | Throw e => Throw e
      end
  end.

(** The [nav-file] element [redraw] builds for an entry. *)
Definition navFile_of (openFile currentFile : File) : El :=
  Div ["nav-file"%string] None true
    [Div (if decide (basename currentFile = basename openFile)
          then ["nav-file-title"; "is-active"]%string
          else ["nav-file-title"%string])
         None false
         [Div ["nav-file-title-content"%string] (Some (basename currentFile)) false []]].

(** The body of the loop of [redraw]; the local state is the list of children
    of [childrenEl].  Reading [openFile.basename] throws when [openFile] is
    [null]. *)
Definition redraw_row (openFile : option File) (currentFile : File)
    (childrenEl : list El) : outcome (list El) :=
  match openFile with
  | None => Throw TypeError
  | Some openFile => Return (childrenEl ++ [navFile_of openFile currentFile])
  end.

Definition redraw : M unit :=
  openFile ← getActiveFile;
  d ← get_data;
  match forEach (redraw_row openFile) (recentFiles d) [] with
  | Throw e => throw e
  | Return rows =>
      let childrenEl := Div ["nav-folder-children"%string] None false rows in
      let rootEl := Div ["nav-folder"; "mod-root"]%string None false [childrenEl] in
      replace_content rootEl
  end.

Definition update (openedFile : File) : M unit :=
  b ← shouldAddFile openedFile;
  if negb b then mret ()
  else updateData openedFile;; redraw.

(** The world right after the module is evaluated, before [onload]: the
    store holds the [DEFAULT_DATA] literal, nothing is saved or drawn. *)
Definition module_init (active : option File) : World :=
  {| data := DEFAULT_DATA; saved := []; activeFile := active; contentEl := [];
     redraws := 0 |}.

(** ** Reading the rendered view *)

(** The [nav-file] rows under [contentEl], top to bottom. *)
Definition rendered_rows (content : list El) : list El :=
  rootEl ← content; childrenEl ← children_of rootEl; children_of childrenEl.

(** The label of a row as [handleFileClick] reads it: the text of the first
    child of the row's title. *)
Definition row_label (navFile : El) : option string :=
  navFileTitle ← head (children_of navFile);
  navFileTitleContent ← head (children_of navFileTitle);
  text_of navFileTitleContent.

Definition row_active (navFile : El) : bool :=
  match head (children_of navFile) with
  | Some navFileTitle => bool_decide ("is-active"%string ∈ classes_of navFileTitle)
  | None => false
  end.

(** ** Sequences of operations on the store *)

Inductive op :=
  | Touch (file : File)
  | Prune
  | Omit (lines : list string).

Definition run_op (o : op) : M unit :=
  match o with
  | Touch file => updateData file
  | Prune => pruneOmittedFiles
  | Omit lines => set_omittedPaths lines
  end.

(** The worlds after each operation of a sequence, in order. *)
Fixpoint trace (w : World) (ops : list op) : list World :=
  match ops with
  | [] => []
  | o :: ops' => let w' := exec (run_op o) w in w' :: trace w' ops'
  end.

(** ** Closed forms used in the proofs *)

(** How many entries survive the trim at the end of [updateData] when the
    list has [n] entries and the bound is [m]. *)
Definition kept (m : Z) (n : nat) : nat :=
  if decide (Z.of_nat n ≤ m) then n
  else if decide (m < 0) then Z.to_nat (Z.of_nat n + m)
  else Z.to_nat m.

(** The list [updateData] leaves in the store: the touched file in front of
    the entries with another basename, trimmed. *)
Definition touched (d : RecentFilesData) (file : File) : list File :=
  let l := file :: filter (λ currFile, basename currFile ≠ basename file) (recentFiles d) in
  take (kept (maxLength d) (length l)) l.

Definition dedup_ok (w : World) : Prop := NoDup (basename <$> recentFiles (data w)).

(** The omitted path [p] excludes the file. *)
Definition excluded_by (d : RecentFilesData) (file : File) (p : string) : Prop :=
  p ∈ omittedPaths d ∧ p ≠ ""%string ∧ JS.startsWith (path file) p = true.

(** ** Sample files and worlds *)

Module Scenarios.

Definition A : File := {| path := "/a"; basename := "A" |}.
Definition B : File := {| path := "/b"; basename := "B" |}.
Definition C : File := {| path := "/c"; basename := "C" |}.
Definition A' : File := {| path := "/other/a"; basename := "A" |}.
Definition daily : File := {| path := "daily/2024-01-01"; basename := "2024-01-01" |}.

Definition world (l : list File) (omitted : list string) (n : Z) (active : option File) : World :=
  {| data := {| recentFiles := l; omittedPaths := omitted; maxLength := n |};
     saved := []; activeFile := active; contentEl := []; redraws := 0 |}.

End Scenarios.

(** ** Clicks on the rows *)

(** [el.getText()], the text content of the element: its own text followed
    by the text of its children. *)
Fixpoint getText (e : El) : string :=
  match e with
  | Div _ t _ k =>
      default EmptyString t
      +:+ (fix texts (l : list El) : string :=
             match l with
             | [] => EmptyString
             | x :: l' => getText x +:+ texts l'
             end) k
  end.

Definition hasClass (e : El) (cls : string) : bool := bool_decide (cls ∈ classes_of e).

(** [handleFileClick].  [target] is [event.target], [None] when it is not an
    [HTMLDivElement]; [vault] is [this.app.vault.getFiles()].  The result is
    the file handed to [openFile] on the most recent leaf, [None] when
    nothing is opened.  Reading [children[0].getText()] throws when the
    target has no child. *)
Definition handleFileClick (vault : list File) (target : option El) : outcome (option File) :=
  match target with
  | None => Return None
  | Some target =>
      let targetFileName :=
        if hasClass target "nav-file-title-content"
        then Return (getText target)
        else match children_of target !! 0%nat with
             | Some child => Return (getText child)
             | None => Throw TypeError
             end in
      match targetFileName with
      | Throw e => Throw e
      | Return targetFileName =>
          Return (JS.find (λ file, basename file = targetFileName) vault)
      end
  end.

(** The elements of a row a click can land on: the row, its title and the
    title's content. *)
Definition click_targets (navFile : El) : list El :=
  navFile :: children_of navFile ++ (children_of navFile ≫= children_of).

(** ** The settings tab *)

(** The line feed, the separator of the text area. *)
Definition LF : Ascii.ascii := Ascii.ascii_of_nat 10.

(** What [display] puts in the text area: [omittedPaths.join("\n")]. *)
Definition displayed_value (d : RecentFilesData) : string :=
  JS.join (String LF EmptyString) (omittedPaths d).

(** The [onChange] handler of the text area.  [view] tells whether
    [this.plugin.view] is set, which the host does when it creates the view;
    calling [redraw] on [undefined] throws. *)
Definition onChange (view : bool) (value : string) : M unit :=
  set_omittedPaths (JS.split LF value);;
  pruneOmittedFiles;;
  if view then redraw else throw TypeError.

(** ** Events *)

(** The host makes another file, or none, the active one. *)
Definition activate (active : option File) : M unit := λ w,
  (Return (),
   {| data := data w; saved := saved w; activeFile := active;
      contentEl := contentEl w; redraws := redraws w |}).

(** What reaches the plugin after startup: a [file-open] event, a change of
    the text area, and in between the host changing the active file. *)
Inductive event :=
  | FileOpen (openedFile : File)
  | OmittedChange (view : bool) (value : string)
  | Activate (active : option File).

Definition handle (e : event) : M unit :=
  match e with
  | FileOpen openedFile => update openedFile
  | OmittedChange view value => onChange view value
  | Activate active => activate active
  end.

(** The worlds after each event of a sequence; an exception ends the
    handler that threw, not the sequence. *)
Fixpoint run_events (w : World) (events : list event) : list World :=
  match events with
  | [] => []
  | e :: events' => let w' := exec (handle e) w in w' :: run_events w' events'
  end.

(** The content element shows the store: one row per entry, in order,
    labelled with the entry's basename. *)
Definition view_synced (w : World) : Prop :=
  row_label <$> rendered_rows (contentEl w)
  = (λ entry, Some (basename entry)) <$> recentFiles (data w).

(** The last snapshot handed to [saveData] is the store. *)
Definition persisted (w : World) : Prop := last (saved w) = Some (data w).

(** The blob the host reads back from a snapshot. *)
Definition blob_of (d : RecentFilesData) : Blob :=
  {| blob_recentFiles := Some (recentFiles d);
     blob_omittedPaths := Some (omittedPaths d);
     blob_maxLength := Some (maxLength d) |}.

(** The string has no occurrence of the character. *)
Fixpoint free_of (c : Ascii.ascii) (s : string) : bool :=
  match s with
  | EmptyString => true
  | String c' s' => if decide (c' = c) then false else free_of c s'
  end.

(** * Proofs *)

(** ** Facts about the built-ins *)

Lemma splice_insert_front {A} (arr items : list A) :
  JS.splice arr 0 0 items = items ++ arr.
Proof.
  unfold JS.splice. case_decide; [lia|].
  replace (Z.min 0 _) with 0 by lia.
  replace (0 + Z.min (Z.max 0 0) _) with 0 by lia.
  reflexivity.
Qed.

Lemma splice_trim {A} (arr : list A) (m : Z) :
  let len := Z.of_nat (length arr) in
  let toRemove := len - m in
  0 < toRemove →
  JS.splice arr (len - toRemove) toRemove [] = take (kept m (length arr)) arr.
Proof.
  intros len toRemove Hpos. unfold JS.splice, kept.
  subst len toRemove.
  rewrite (decide_False (P := Z.of_nat (length arr) ≤ m)) by lia.
  replace (Z.of_nat (length arr) - (Z.of_nat (length arr) - m)) with m by lia.
  destruct (decide (m < 0)).
  - replace (drop _ arr) with (@nil A).
    + rewrite app_nil_r. f_equal. lia.
    + symmetry. apply drop_ge. lia.
  - replace (drop _ arr) with (@nil A).
    + rewrite app_nil_r. f_equal. lia.
    + symmetry. apply drop_ge. lia.
Qed.

Lemma kept_nonneg (m : Z) (n : nat) : 0 ≤ m → kept m n = (Z.to_nat m `min` n)%nat.
Proof. intros. unfold kept. repeat case_decide; lia. Qed.

(** [startsWith] holds exactly when the string is the search string
    followed by something. *)
Lemma startsWith_spec (s p : string) :
  JS.startsWith s p = true ↔ ∃ t, s = p +:+ t.
Proof.
  unfold JS.startsWith. revert p.
  induction s as [|c' s IH]; intros [|c p]; cbn.
  - split; [by exists ""%string | done].
  - split; [done | by intros [t ?]].
  - split; [by exists (String c' s) | done].
  - destruct (Ascii.ascii_dec c c') as [->|Hne].
    + rewrite IH. split; intros [t Ht]; exists t.
      * by rewrite Ht.
      * by injection Ht.
    + split; [done | intros [t Ht]]. injection Ht as Hc _. by destruct Hne.
Qed.

Lemma nonempty_length (p : string) : (0 < String.length p)%nat ↔ p ≠ ""%string.
Proof. destruct p; cbn; split; (done || lia). Qed.

Lemma filter_none {A} (P : A → Prop) `{∀ x, Decision (P x)} (l : list A) :
  Forall (λ x, ¬ P x) l → filter P l = [].
Proof.
  induction 1 as [|x l Hx _ IH]; [done|]. by rewrite filter_cons_False.
Qed.

(** ** What the methods compute *)

Lemma entry_eta (file : File) : {| path := path file; basename := basename file |} = file.
Proof. by destruct file. Qed.

Lemma updateData_run (file : File) (w : World) :
  updateData file w =
    (Return (),
     {| data := with_recentFiles (data w) (touched (data w) file);
        saved := saved w ++ [with_recentFiles (data w) (touched (data w) file)];
        activeFile := activeFile w; contentEl := contentEl w; redraws := redraws w |}).
Proof.
  unfold updateData, touched, set_recentFiles, mbind, M_bind, get_data,
    put_data, saveData, with_recentFiles.
  cbn [data recentFiles omittedPaths maxLength saved activeFile contentEl redraws].
  rewrite splice_insert_front, entry_eta. cbn [app].
  case_decide as Hrem.
  - by rewrite (splice_trim (file :: _) _ Hrem).
  - unfold mret, M_ret. unfold kept. rewrite decide_True by lia.
    by rewrite firstn_all.
Qed.

Lemma pruneOmittedFiles_run (w : World) :
  let d' := with_recentFiles (data w)
              (filter (λ file, shouldAddFile_in (data w) file = true) (recentFiles (data w))) in
  pruneOmittedFiles w =
    (Return (),
     {| data := d'; saved := saved w ++ [d']; activeFile := activeFile w;
        contentEl := contentEl w; redraws := redraws w |}).
Proof. reflexivity. Qed.

Lemma shouldAddFile_run (file : File) (w : World) :
  shouldAddFile file w = (Return (shouldAddFile_in (data w) file), w).
Proof. reflexivity. Qed.

Lemma updateData_exec (file : File) (w : World) :
  data (exec (updateData file) w) = with_recentFiles (data w) (touched (data w) file).
Proof. unfold exec. by rewrite updateData_run. Qed.

Lemma pruneOmittedFiles_exec (w : World) :
  data (exec pruneOmittedFiles w) =
    with_recentFiles (data w)
      (filter (λ file, shouldAddFile_in (data w) file = true) (recentFiles (data w))).
Proof. reflexivity. Qed.

(** Replaces the store left by [updateData] or [pruneOmittedFiles] by its
    closed form and projects the fields. *)
Ltac store_after :=
  rewrite ?updateData_exec, ?pruneOmittedFiles_exec;
  cbn [recentFiles omittedPaths maxLength with_recentFiles].

Lemma forEach_redraw_row (openFile : File) (l : list File) (acc : list El) :
  forEach (redraw_row (Some openFile)) l acc = Return (acc ++ (navFile_of openFile <$> l)).
Proof.
  revert acc. induction l as [|e l IH]; intros acc; cbn [forEach fmap list_fmap].
  - by rewrite app_nil_r.
  - cbn [redraw_row]. rewrite IH. by rewrite <-app_assoc.
Qed.

Lemma redraw_run (w : World) (openFile : File) :
  activeFile w = Some openFile →
  redraw w =
    (Return (),
     {| data := data w; saved := saved w; activeFile := activeFile w;
        contentEl :=
          [Div ["nav-folder"; "mod-root"]%string None false
             [Div ["nav-folder-children"%string] None false
                (navFile_of openFile <$> recentFiles (data w))]];
        redraws := S (redraws w) |}).
Proof.
  destruct w as [d sv act content n]. cbn [activeFile]. intros ->.
  unfold redraw, mbind, M_bind, getActiveFile, get_data.
  cbn [data activeFile]. by rewrite forEach_redraw_row.
Qed.

(** ** Runs on sample worlds *)

Example evict_oldest :
  recentFiles
    (data (exec (updateData Scenarios.A;; updateData Scenarios.B;; updateData Scenarios.C)
             (Scenarios.world [] [] 2 None)))
  = [Scenarios.C; Scenarios.B].
Proof. reflexivity. Qed.

Example prune_after_omit :
  recentFiles
    (data (exec (set_omittedPaths ["daily/"%string];; pruneOmittedFiles)
             (Scenarios.world [{| path := "daily/x"; basename := "A" |}; Scenarios.B]
                [] 5 None)))
  = [Scenarios.B].
Proof. reflexivity. Qed.

Example negative_maxLength_empties_late :
  recentFiles (data (exec (updateData Scenarios.A)
                       (Scenarios.world [Scenarios.B; Scenarios.C] [] (-3) None)))
  = [].
Proof. reflexivity. Qed.

(** With no active file [redraw] throws as soon as there is an entry to
    draw, after [updateData] has changed and saved the store. *)
Example update_without_active_file :
  let w := Scenarios.world [] [] 5 None in
  result (update Scenarios.A) w = Throw TypeError
  ∧ recentFiles (data (exec (update Scenarios.A) w)) = [Scenarios.A]
  ∧ redraws (exec (update Scenarios.A) w) = 0%nat.
Proof. split_and!; reflexivity. Qed.

(** ** The length bound *)

Lemma touched_length (d : RecentFilesData) (file : File) :
  0 ≤ maxLength d → Z.of_nat (length (touched d file)) ≤ maxLength d.
Proof.
  intros Hm. unfold touched. rewrite length_take, kept_nonneg by done. lia.
Qed.

(** If every operation of a sequence keeps [I] and establishes [Q], then
    [Q] holds in every world of the trace from a world that satisfies [I]. *)
Lemma trace_Forall (I Q : World → Prop) (ops : list op) :
  (∀ w o, o ∈ ops → I w → I (exec (run_op o) w) ∧ Q (exec (run_op o) w)) →
  ∀ w, I w → Forall Q (trace w ops).
Proof.
  induction ops as [|o ops IH]; intros Hstep w Hw; cbn [trace]; constructor.
  - apply Hstep; [left | done].
  - apply IH.
    + intros w' o' Ho'. apply Hstep. by right.
    + apply Hstep; [left | done].
Qed.

(** C1: for a [maxLength] that is an integer [>= 0], after [updateData] the
    length of [recentFiles] is at most [maxLength]; the bound then holds
    after each call of every sequence of [updateData] calls; and with
    [maxLength = 0] the list is empty after any [updateData]. *)
Theorem updateData_length_bound (w : World) :
  0 ≤ maxLength (data w) →
  (∀ file, let w' := exec (updateData file) w in
     Z.of_nat (length (recentFiles (data w'))) ≤ maxLength (data w'))
  ∧ (∀ files,
       Forall (λ w', Z.of_nat (length (recentFiles (data w'))) ≤ maxLength (data w'))
         (trace w (Touch <$> files)))
  ∧ (maxLength (data w) = 0 →
     ∀ file, recentFiles (data (exec (updateData file) w)) = []).
Proof.
  intros Hm. split_and!.
  - intros file w'. subst w'. store_after. by apply touched_length.
  - intros files.
    apply (trace_Forall (λ v, 0 ≤ maxLength (data v))); [|done].
    intros v o (file & -> & _)%list_elem_of_fmap Hv. cbn [run_op].
    store_after. split; [done | by apply touched_length].
  - intros Hzero file. store_after. unfold touched. by rewrite kept_nonneg, Hzero.
Qed.

Lemma updateData_length_bound_witness :
  let w := Scenarios.world [] [] 2 None in
  0 ≤ maxLength (data w)
  ∧ Forall (λ w', Z.of_nat (length (recentFiles (data w'))) ≤ maxLength (data w'))
      (trace w (Touch <$> [Scenarios.A; Scenarios.B; Scenarios.C])).
Proof.
  intros w.
  assert (0 ≤ maxLength (data w)) as Hm by (cbn; lia).
  split; [exact Hm|].
  exact (proj1 (proj2 (updateData_length_bound w Hm))
           [Scenarios.A; Scenarios.B; Scenarios.C]).
Defined.

(** ** Deduplication by basename *)

Lemma touched_NoDup (d : RecentFilesData) (file : File) :
  NoDup (basename <$> recentFiles d) → NoDup (basename <$> touched d file).
Proof.
  intros Hnd. unfold touched. rewrite fmap_take.
  eapply sublist_NoDup; [|apply sublist_take].
  rewrite fmap_cons. apply NoDup_cons. split.
  - intros (e & Heq & [Hne _]%list_elem_of_filter)%list_elem_of_fmap. by apply Hne.
  - eapply sublist_NoDup; [exact Hnd|]. apply fmap_sublist, sublist_filter.
Qed.

Lemma run_op_dedup_ok (o : op) (w : World) : dedup_ok w → dedup_ok (exec (run_op o) w).
Proof.
  unfold dedup_ok. intros Hnd. destruct o as [file| |lines]; cbn [run_op].
  - store_after. by apply touched_NoDup.
  - store_after. eapply sublist_NoDup; [exact Hnd|]. apply fmap_sublist, sublist_filter.
  - done.
Qed.

(** C2: from a store without two entries of the same basename, [updateData]
    and [pruneOmittedFiles] each leave a store without two entries of the same
    basename, and so does every step of every sequence of these operations
    (also when [omittedPaths] is reassigned in between). *)
Theorem dedup_invariant (w : World) :
  NoDup (basename <$> recentFiles (data w)) →
  (∀ file, NoDup (basename <$> recentFiles (data (exec (updateData file) w))))
  ∧ NoDup (basename <$> recentFiles (data (exec pruneOmittedFiles w)))
  ∧ (∀ ops, Forall (λ w', NoDup (basename <$> recentFiles (data w'))) (trace w ops)).
Proof.
  intros Hnd. split_and!.
  - intros file. by apply (run_op_dedup_ok (Touch file)).
  - by apply (run_op_dedup_ok Prune).
  - intros ops. apply (trace_Forall dedup_ok); [|done].
    intros v o _ Hv. split; by apply run_op_dedup_ok.
Qed.

Lemma dedup_invariant_witness :
  let w := Scenarios.world [Scenarios.A; Scenarios.B] [] 3 None in
  NoDup (basename <$> recentFiles (data w))
  ∧ Forall (λ w', NoDup (basename <$> recentFiles (data w')))
      (trace w [Touch Scenarios.B; Omit ["/a"%string]; Prune; Touch Scenarios.C]).
Proof.
  intros w.
  assert (NoDup (basename <$> recentFiles (data w))) as Hnd
    by (apply (bool_decide_unpack _); vm_compute; exact I).
  split; [exact Hnd|].
  exact (proj2 (proj2 (dedup_invariant w Hnd)) _).
Defined.

(** ** Recency order *)

Lemma touched_nonneg (d : RecentFilesData) (file : File) :
  0 ≤ maxLength d →
  touched d file =
    take (Z.to_nat (maxLength d))
      (file :: filter (λ currFile, basename currFile ≠ basename file) (recentFiles d)).
Proof.
  intros Hm. unfold touched. rewrite kept_nonneg by done.
  set (l := file :: _). destruct (decide (Z.to_nat (maxLength d) ≤ length l)%nat).
  - by rewrite Nat.min_l.
  - rewrite Nat.min_r, firstn_all by lia. symmetry. apply take_ge. lia.
Qed.

Lemma touched_pos (d : RecentFilesData) (file : File) :
  1 ≤ maxLength d →
  touched d file =
    file :: take (Z.to_nat (maxLength d - 1))
              (filter (λ currFile, basename currFile ≠ basename file) (recentFiles d)).
Proof.
  intros Hm. rewrite touched_nonneg by lia.
  replace (Z.to_nat (maxLength d)) with (S (Z.to_nat (maxLength d - 1))) by lia.
  done.
Qed.

(** C3: with [maxLength >= 1], after [updateData file] the entry made of the
    file's basename and path is at index 0, and the entries behind it are the
    earlier entries with another basename, in their earlier order, cut at
    [maxLength - 1]; so they form a sublist of the earlier list. *)
Theorem updateData_head (w : World) (file : File) :
  1 ≤ maxLength (data w) →
  let before := recentFiles (data w) in
  let after := recentFiles (data (exec (updateData file) w)) in
  after !! 0%nat = Some {| path := path file; basename := basename file |}
  ∧ after = {| path := path file; basename := basename file |}
            :: take (Z.to_nat (maxLength (data w) - 1))
                 (filter (λ currFile, basename currFile ≠ basename file) before)
  ∧ tail after `sublist_of` before.
Proof.
  intros Hm before after. subst before after. store_after.
  rewrite touched_pos, entry_eta by done. split_and!; [done..|].
  cbn [tail]. etrans; [apply sublist_take | apply sublist_filter].
Qed.

Lemma updateData_head_witness :
  recentFiles
    (data (exec (updateData Scenarios.B)
             (Scenarios.world [Scenarios.A; Scenarios.B; Scenarios.C] [] 3 None)))
  = [Scenarios.B; Scenarios.A; Scenarios.C].
Proof.
  pose proof (updateData_head
                (Scenarios.world [Scenarios.A; Scenarios.B; Scenarios.C] [] 3 None)
                Scenarios.B ltac:(cbn; lia)) as (_ & Hafter & _).
  exact Hafter.
Defined.

(** ** Frame *)

(** C9: [updateData] and [pruneOmittedFiles] assign [recentFiles] only;
    [omittedPaths] and [maxLength] keep their values. *)
Theorem store_frame (w : World) :
  (∀ file,
     omittedPaths (data (exec (updateData file) w)) = omittedPaths (data w)
     ∧ maxLength (data (exec (updateData file) w)) = maxLength (data w))
  ∧ omittedPaths (data (exec pruneOmittedFiles w)) = omittedPaths (data w)
  ∧ maxLength (data (exec pruneOmittedFiles w)) = maxLength (data w).
Proof.
  split_and!; [intros file|..]; by store_after.
Qed.

(** ** One entry per basename after a touch *)

(** C10 (amended): with [maxLength >= 1], whatever the store held before,
    duplicates included, after [updateData file] the entries that carry the
    file's basename are exactly the new entry; with [maxLength = 0] the list
    is empty after [updateData file], so no entry carries that basename. *)
Theorem updateData_single_entry (w : World) (file : File) :
  (1 ≤ maxLength (data w) →
   filter (λ currFile, basename currFile = basename file)
     (recentFiles (data (exec (updateData file) w)))
   = [{| path := path file; basename := basename file |}])
  ∧ (maxLength (data w) = 0 →
     recentFiles (data (exec (updateData file) w)) = []
     ∧ filter (λ currFile, basename currFile = basename file)
         (recentFiles (data (exec (updateData file) w)))
       = []).
Proof.
  split.
  - intros Hm. store_after. rewrite touched_pos, entry_eta by done.
    rewrite filter_cons_True by done. f_equal.
    apply filter_none, Forall_take, Forall_forall.
    intros e [Hne _]%list_elem_of_filter. done.
  - intros Hzero. store_after. rewrite touched_nonneg, Hzero by lia. done.
Qed.

Lemma updateData_single_entry_witness :
  filter (λ currFile, basename currFile = basename Scenarios.A)
    (recentFiles
       (data (exec (updateData Scenarios.A)
                (Scenarios.world [Scenarios.A'; Scenarios.B; Scenarios.A'; Scenarios.A]
                   [] 2 None))))
  = [Scenarios.A]
  ∧ recentFiles
      (data (exec (updateData Scenarios.A)
               (Scenarios.world [Scenarios.A'; Scenarios.B] [] 0 None)))
    = [].
Proof.
  split.
  - exact (proj1 (updateData_single_entry
                    (Scenarios.world [Scenarios.A'; Scenarios.B; Scenarios.A'; Scenarios.A]
                       [] 2 None)
                    Scenarios.A) ltac:(cbn; lia)).
  - exact (proj1 (proj2 (updateData_single_entry
                           (Scenarios.world [Scenarios.A'; Scenarios.B] [] 0 None)
                           Scenarios.A) eq_refl)).
Defined.

(** With [maxLength = 0] the trim removes the new entry as well: no entry
    carries the touched basename afterwards. *)
Lemma updateData_single_entry_zero :
  let after := recentFiles (data (exec (updateData Scenarios.A)
                                    (Scenarios.world [Scenarios.B] [] 0 None))) in
  after = []
  ∧ length (filter (λ currFile, basename currFile = basename Scenarios.A) after) ≠ 1%nat.
Proof. split; [reflexivity | vm_compute; discriminate]. Qed.

(** ** Omitted paths *)

Lemma shouldAddFile_in_true (d : RecentFilesData) (file : File) :
  shouldAddFile_in d file = true ↔ ∀ p, ¬ excluded_by d file p.
Proof.
  unfold shouldAddFile_in, JS.find, excluded_by.
  rewrite bool_decide_eq_true, fmap_None, list_find_None, Forall_forall.
  split.
  - intros Hall p (Hin & Hne & Hpre). apply (Hall p); [|done].
    apply list_elem_of_filter. by rewrite nonempty_length.
  - intros Hnone p [Hlen Hin]%list_elem_of_filter Hpre.
    apply (Hnone p). by rewrite <-nonempty_length.
Qed.

Lemma shouldAddFile_in_false (d : RecentFilesData) (file : File) :
  shouldAddFile_in d file = false ↔ ∃ p, excluded_by d file p.
Proof.
  split.
  - unfold shouldAddFile_in, JS.find.
    rewrite bool_decide_eq_false, fmap_None.
    destruct (list_find _ _) as [[i p]|] eqn:Hfind; [intros _|done].
    apply list_find_Some in Hfind as (Hlook & Hpre & _).
    apply list_elem_of_lookup_2, list_elem_of_filter in Hlook as [Hlen Hin].
    exists p. split_and!; [done | by apply nonempty_length | done].
  - intros [p Hp]. destruct (shouldAddFile_in d file) eqn:Hb; [|done].
    rewrite shouldAddFile_in_true in Hb. by destruct (Hb p).
Qed.

(** C4: [shouldAddFile] returns, leaves the world as it is, and answers
    [false] exactly when some non-empty entry of [omittedPaths] is a prefix of
    the file's path.  So it answers [true] when [omittedPaths] is empty, and
    an empty-string entry, wherever it stands in [omittedPaths], does not
    change the answer for any file. *)
Theorem shouldAddFile_spec (w : World) (file : File) :
  (∃ b, shouldAddFile file w = (Return b, w)
        ∧ (b = false ↔
           ∃ p, p ∈ omittedPaths (data w) ∧ p ≠ ""%string
                ∧ JS.startsWith (path file) p = true))
  ∧ (omittedPaths (data w) = [] → shouldAddFile file w = (Return true, w))
  ∧ (∀ l1 l2,
       result (shouldAddFile file) (exec (set_omittedPaths (l1 ++ ""%string :: l2)) w)
       = result (shouldAddFile file) (exec (set_omittedPaths (l1 ++ l2)) w)).
Proof.
  split_and!.
  - exists (shouldAddFile_in (data w) file). split; [done|].
    apply shouldAddFile_in_false.
  - intros Hnil. rewrite shouldAddFile_run. do 2 f_equal.
    apply shouldAddFile_in_true. intros p (Hin & _). rewrite Hnil in Hin.
    by apply elem_of_nil in Hin.
  - intros l1 l2. unfold result. rewrite !shouldAddFile_run.
    cbn [fst]. f_equal. unfold shouldAddFile_in, exec, set_omittedPaths, mbind, M_bind,
      get_data, put_data.
    cbn [snd data omittedPaths].
    rewrite !filter_app, filter_cons_False; [done|]. cbn. lia.
Qed.

Lemma shouldAddFile_spec_witness :
  shouldAddFile Scenarios.daily (Scenarios.world [] [] 5 None)
  = (Return true, Scenarios.world [] [] 5 None).
Proof.
  exact (proj1 (proj2 (shouldAddFile_spec (Scenarios.world [] [] 5 None) Scenarios.daily))
           eq_refl).
Defined.

(** ** Pruning *)

(** C5: [pruneOmittedFiles] run twice leaves the same store as run once, and
    after one run [shouldAddFile] answers [true] for every remaining entry. *)
Theorem pruneOmittedFiles_idempotent (w : World) :
  data (exec pruneOmittedFiles (exec pruneOmittedFiles w)) = data (exec pruneOmittedFiles w)
  ∧ Forall (λ file, shouldAddFile file (exec pruneOmittedFiles w)
                    = (Return true, exec pruneOmittedFiles w))
      (recentFiles (data (exec pruneOmittedFiles w))).
Proof.
  split.
  - rewrite !pruneOmittedFiles_exec. unfold with_recentFiles.
    cbn [recentFiles omittedPaths maxLength]. f_equal.
    rewrite list_filter_filter. apply list_filter_iff.
    intros file. unfold shouldAddFile_in. cbn [omittedPaths].
    split; [by intros [_ ?] | by intros ?].
  - apply Forall_forall. intros file Hin. rewrite shouldAddFile_run.
    rewrite pruneOmittedFiles_exec in Hin |- *.
    cbn [recentFiles with_recentFiles] in Hin.
    apply list_elem_of_filter in Hin as [Hok _].
    do 2 f_equal. exact Hok.
Qed.

(** ** The file-open handler *)

(** C6: when [shouldAddFile] answers [false] for the opened file, [update]
    returns with the world as it was: the same store ([recentFiles],
    [omittedPaths], [maxLength]), nothing more handed to [saveData], the
    content element not replaced.  Conversely [update] changes the world only
    when [shouldAddFile] answers [true]. *)
Theorem update_discards (w : World) (openedFile : File) :
  (result (shouldAddFile openedFile) w = Return false →
   update openedFile w = (Return (), w))
  ∧ (exec (update openedFile) w ≠ w →
     result (shouldAddFile openedFile) w = Return true).
Proof.
  assert (shouldAddFile_in (data w) openedFile = false →
          update openedFile w = (Return (), w)) as Hskip.
  { intros Hb. unfold update, mbind, M_bind. by rewrite shouldAddFile_run, Hb. }
  unfold result. rewrite shouldAddFile_run. cbn [fst]. split.
  - intros [= Hb]. by apply Hskip.
  - intros Hchanged. f_equal.
    destruct (shouldAddFile_in (data w) openedFile) eqn:Hb; [done|].
    destruct Hchanged. unfold exec. by rewrite Hskip.
Qed.

Lemma update_discards_witness :
  let w := Scenarios.world [Scenarios.A] ["daily/"%string] 5 (Some Scenarios.daily) in
  update Scenarios.daily w = (Return (), w).
Proof.
  intros w. exact (proj1 (update_discards w Scenarios.daily) eq_refl).
Defined.

(** ** Loading *)

(** C7: at startup, whatever the host hands over, [loadData] returns and the
    store has all three fields: a field the blob has holds the blob's value,
    a field it lacks (all of them when there is no blob) holds its default,
    [[]], [[]] and [5]. *)
Theorem loadData_defaults (active : option File) (loaded : option Blob) :
  ∃ w', loadData loaded (module_init active) = (Return (), w')
        ∧ recentFiles (data w') = default [] (loaded ≫= blob_recentFiles)
        ∧ omittedPaths (data w') = default [] (loaded ≫= blob_omittedPaths)
        ∧ maxLength (data w') = default 5 (loaded ≫= blob_maxLength).
Proof.
  eexists. split; [reflexivity|]. by destruct loaded as [[? ? ?]|].
Qed.

(** The target of the assignment is the store itself, not a copy of the
    defaults: a [loadData] later than the one at startup keeps, for the
    fields the blob lacks, what the store holds by then. *)
Lemma loadData_keeps_store (w : World) : loadData None w = (Return (), w).
Proof. by destruct w. Qed.

(** ** Rendering *)

Lemma row_active_navFile_of (openFile currentFile : File) :
  row_active (navFile_of openFile currentFile)
  = bool_decide (basename currentFile = basename openFile).
Proof.
  unfold row_active, navFile_of. cbn [children_of head classes_of].
  destruct (decide (basename currentFile = basename openFile)) as [Heq|Hne].
  - by rewrite (bool_decide_eq_true_2 _ Heq).
  - by rewrite (bool_decide_eq_false_2 _ Hne).
Qed.

(** C8: with an active file, [redraw] returns and the content element shows
    one row per entry of [recentFiles], in the order of the list, labelled
    with the entry's basename; a row is marked active exactly when its
    entry's basename is the active file's, so when no entry matches no row is
    marked.  The store is not changed. *)
Theorem redraw_rows (w : World) (openFile : File) :
  activeFile w = Some openFile →
  let rows := rendered_rows (contentEl (exec redraw w)) in
  result redraw w = Return ()
  ∧ data (exec redraw w) = data w
  ∧ length rows = length (recentFiles (data w))
  ∧ row_label <$> rows = (λ entry, Some (basename entry)) <$> recentFiles (data w)
  ∧ row_active <$> rows
    = (λ entry, bool_decide (basename entry = basename openFile)) <$> recentFiles (data w)
  ∧ (Forall (λ entry, basename entry ≠ basename openFile) (recentFiles (data w)) →
     Forall (λ row, row_active row = false) rows).
Proof.
  intros Hactive rows. subst rows. unfold result, exec.
  rewrite (redraw_run w openFile Hactive). cbn [fst snd data contentEl].
  assert (rendered_rows
            [Div ["nav-folder"; "mod-root"]%string None false
               [Div ["nav-folder-children"%string] None false
                  (navFile_of openFile <$> recentFiles (data w))]]
          = navFile_of openFile <$> recentFiles (data w)) as ->.
  { unfold rendered_rows. cbn. by rewrite !app_nil_r. }
  split_and!; [done | done | by rewrite length_fmap | | | ].
  - rewrite <-list_fmap_compose. by apply list_fmap_ext.
  - rewrite <-list_fmap_compose. apply list_fmap_ext.
    intros i entry _. apply row_active_navFile_of.
  - intros Hnone. apply Forall_fmap. eapply Forall_impl; [exact Hnone|].
    intros entry Hne. unfold compose. rewrite row_active_navFile_of.
    by apply bool_decide_eq_false_2.
Qed.

Lemma redraw_rows_witness :
  let w := Scenarios.world [Scenarios.B; Scenarios.A; Scenarios.C] [] 3 (Some Scenarios.A) in
  row_label <$> rendered_rows (contentEl (exec redraw w))
  = [Some "B"; Some "A"; Some "C"]%string
  ∧ row_active <$> rendered_rows (contentEl (exec redraw w)) = [false; true; false].
Proof.
  intros w.
  pose proof (redraw_rows w Scenarios.A eq_refl) as (_ & _ & _ & Hlabel & Hact & _).
  split; [exact Hlabel | exact Hact].
Defined.

(** * The settings tab, the clicks and whole events *)

(** ** The text area: [split] and [join] *)

Lemma split_cons (sep : Ascii.ascii) (s : string) :
  ∃ piece pieces, JS.split sep s = piece :: pieces.
Proof.
  destruct s as [|c s]; cbn [JS.split]; [by eauto|].
  case_decide; [by eauto|]. destruct (JS.split sep s); by eauto.
Qed.

Lemma join_cons_cons (sep x y : string) (l : list string) :
  JS.join sep (x :: y :: l) = x +:+ sep +:+ JS.join sep (y :: l).
Proof. reflexivity. Qed.

Lemma split_free (sep : Ascii.ascii) (x : string) :
  free_of sep x = true → JS.split sep x = [x].
Proof.
  induction x as [|c x IH]; cbn [free_of JS.split]; [done|].
  case_decide; [done|]. intros Hx. by rewrite (IH Hx).
Qed.

Lemma split_app_sep (sep : Ascii.ascii) (x rest : string) :
  free_of sep x = true →
  JS.split sep (x +:+ String sep rest) = x :: JS.split sep rest.
Proof.
  induction x as [|c x IH]; cbn [free_of].
  - intros _. change (EmptyString +:+ ?r) with r. cbn [JS.split].
    by rewrite decide_True.
  - change (String c x +:+ ?r) with (String c (x +:+ r)). cbn [JS.split].
    case_decide; [done|]. intros Hx. by rewrite (IH Hx).
Qed.

(** Joining the pieces of [split] with the separator gives the string
    back, for every string; [split] never gives the empty array, and no
    piece holds the separator. *)
Lemma join_split (sep : Ascii.ascii) (s : string) :
  JS.join (String sep EmptyString) (JS.split sep s) = s
  ∧ JS.split sep s ≠ []
  ∧ Forall (λ piece, free_of sep piece = true) (JS.split sep s).
Proof.
  induction s as [|c s (IHjoin & IHne & IHfree)]; [by repeat constructor|].
  cbn [JS.split]. case_decide as Hc.
  - subst c. destruct (split_cons sep s) as (piece & pieces & Hs).
    rewrite Hs in *. rewrite join_cons_cons, IHjoin.
    split_and!; [done | done | by constructor].
  - destruct (split_cons sep s) as (piece & pieces & Hs). rewrite Hs in *.
    apply Forall_cons in IHfree as [Hpiece Hpieces].
    split_and!; [|done|].
    + rewrite <-IHjoin. by destruct pieces.
    + constructor; [|done]. cbn [free_of]. by rewrite decide_False.
Qed.

Lemma split_join_cons (sep : Ascii.ascii) (x : string) (l : list string) :
  Forall (λ entry, free_of sep entry = true) (x :: l) →
  JS.split sep (JS.join (String sep EmptyString) (x :: l)) = x :: l.
Proof.
  revert x. induction l as [|y l IH]; intros x [Hx Hl]%Forall_cons.
  - by apply split_free.
  - rewrite join_cons_cons.
    change (String sep EmptyString +:+ ?r) with (String sep r).
    rewrite split_app_sep by done. f_equal. by apply IH.
Qed.

(** Splitting what [join] made of a non-empty array whose entries do not
    hold the separator gives the array back. *)
Lemma split_join (sep : Ascii.ascii) (l : list string) :
  l ≠ [] →
  Forall (λ entry, free_of sep entry = true) l →
  JS.split sep (JS.join (String sep EmptyString) l) = l.
Proof.
  intros Hne Hfree. destruct l as [|x l]; [done|]. by apply split_join_cons.
Qed.

(** ** What [redraw] does in every case *)

Lemma forEach_redraw_row_null (l : list File) (acc : list El) :
  forEach (redraw_row None) l acc
  = match l with [] => Return acc | _ :: _ => Throw TypeError end.
Proof. by destruct l. Qed.

Lemma redraw_null (w : World) :
  activeFile w = None →
  redraw w =
    match recentFiles (data w) with
    | [] =>
        (Return (),
         {| data := data w; saved := saved w; activeFile := activeFile w;
            contentEl :=
              [Div ["nav-folder"; "mod-root"]%string None false
                 [Div ["nav-folder-children"%string] None false []]];
            redraws := S (redraws w) |})
    | _ :: _ => (Throw TypeError, w)
    end.
Proof.
  destruct w as [d sv act content n]. cbn [activeFile]. intros ->.
  unfold redraw, mbind, M_bind, getActiveFile, get_data.
  cbn [data activeFile]. rewrite forEach_redraw_row_null. by destruct (recentFiles d).
Qed.

Lemma redraw_frame (w : World) :
  data (exec redraw w) = data w
  ∧ saved (exec redraw w) = saved w
  ∧ activeFile (exec redraw w) = activeFile w.
Proof.
  unfold exec. destruct (activeFile w) as [openFile|] eqn:Hactive.
  - by rewrite (redraw_run w openFile Hactive).
  - rewrite (redraw_null w Hactive). by destruct (recentFiles (data w)).
Qed.

Lemma rendered_rows_root (rows : list El) :
  rendered_rows
    [Div ["nav-folder"; "mod-root"]%string None false
       [Div ["nav-folder-children"%string] None false rows]]
  = rows.
Proof. unfold rendered_rows. cbn. by rewrite !app_nil_r. Qed.

Lemma row_label_navFile_of (openFile currentFile : File) :
  row_label (navFile_of openFile currentFile) = Some (basename currentFile).
Proof. reflexivity. Qed.

(** A [redraw] that returns leaves the view showing the store. *)
Lemma redraw_synced (w : World) :
  result redraw w = Return () →
  view_synced (exec redraw w) ∧ redraws (exec redraw w) = S (redraws w).
Proof.
  unfold result, exec, view_synced.
  destruct (activeFile w) as [openFile|] eqn:Hactive.
  - rewrite (redraw_run w openFile Hactive). intros _.
    cbn [snd data contentEl redraws]. rewrite rendered_rows_root.
    split; [|done]. rewrite <-list_fmap_compose. by apply list_fmap_ext.
  - rewrite (redraw_null w Hactive).
    destruct (recentFiles (data w)) eqn:Hl; [intros _|done].
    cbn [snd data contentEl redraws]. rewrite rendered_rows_root. by rewrite Hl.
Qed.

(** X1: without an active file [redraw] returns only when there is nothing
    to draw, and then shows no row; with at least one entry it throws and
    leaves the world, the content element included, as it was. *)
Theorem redraw_without_active_file (w : World) :
  activeFile w = None →
  (recentFiles (data w) = [] →
   result redraw w = Return () ∧ rendered_rows (contentEl (exec redraw w)) = [])
  ∧ (recentFiles (data w) ≠ [] → redraw w = (Throw TypeError, w)).
Proof.
  intros Hactive. unfold result, exec. rewrite !(redraw_null w Hactive). split.
  - intros Hnil. rewrite Hnil. cbn [fst snd contentEl].
    by rewrite rendered_rows_root.
  - by destruct (recentFiles (data w)).
Qed.

Lemma redraw_without_active_file_witness :
  let w := Scenarios.world [Scenarios.A] [] 5 None in
  redraw w = (Throw TypeError, w).
Proof.
  intros w. exact (proj2 (redraw_without_active_file w eq_refl) ltac:(discriminate)).
Defined.

(** ** The [onChange] handler *)

Lemma onChange_run (view : bool) (value : string) (w : World) :
  let d1 := {| recentFiles := recentFiles (data w); omittedPaths := JS.split LF value;
               maxLength := maxLength (data w) |} in
  let d2 := with_recentFiles d1
              (filter (λ file, shouldAddFile_in d1 file = true) (recentFiles (data w))) in
  let w2 := {| data := d2; saved := saved w ++ [d2]; activeFile := activeFile w;
               contentEl := contentEl w; redraws := redraws w |} in
  onChange view value w = if view then redraw w2 else (Throw TypeError, w2).
Proof. by destruct view. Qed.

Lemma onChange_exec (view : bool) (value : string) (w : World) :
  let d1 := {| recentFiles := recentFiles (data w); omittedPaths := JS.split LF value;
               maxLength := maxLength (data w) |} in
  let d2 := with_recentFiles d1
              (filter (λ file, shouldAddFile_in d1 file = true) (recentFiles (data w))) in
  data (exec (onChange view value) w) = d2
  ∧ saved (exec (onChange view value) w) = saved w ++ [d2]
  ∧ activeFile (exec (onChange view value) w) = activeFile w.
Proof.
  unfold exec. rewrite onChange_run. destruct view; [|done].
  match goal with |- context [redraw ?x] =>
    destruct (redraw_frame x) as (Hdata & Hsaved & Hactive) end.
  unfold exec in *. by rewrite Hdata, Hsaved, Hactive.
Qed.

(** X2: the text area keeps what was typed: after [onChange] on a text,
    whatever happened to the view, the text [display] shows for the new
    [omittedPaths] is that very text. *)
Theorem onChange_text_round_trip (view : bool) (value : string) (w : World) :
  displayed_value (data (exec (onChange view value) w)) = value.
Proof.
  destruct (onChange_exec view value w) as (-> & _ & _).
  unfold displayed_value. cbn [omittedPaths with_recentFiles].
  apply (join_split LF value).
Qed.

(** X3: whatever happens to the view, [onChange] leaves a store whose
    [omittedPaths] are the lines of the text, whose [recentFiles] are the
    earlier entries that [shouldAddFile] accepts under these lines, in their
    earlier order, and whose [maxLength] is as before; it hands exactly this
    store to [saveData], once. *)
Theorem onChange_store (view : bool) (value : string) (w : World) :
  let w' := exec (onChange view value) w in
  omittedPaths (data w') = JS.split LF value
  ∧ maxLength (data w') = maxLength (data w)
  ∧ recentFiles (data w')
    = filter (λ file, shouldAddFile_in (data w') file = true) (recentFiles (data w))
  ∧ saved w' = saved w ++ [data w'].
Proof.
  intros w'. subst w'.
  destruct (onChange_exec view value w) as (-> & -> & _). done.
Qed.

(** X4: [onChange] throws exactly when the plugin has no view, or when no
    file is active while an entry is left to draw.  When it returns the
    content element has been replaced once and shows the pruned store; when
    it throws the content element is the one from before, whereas the store
    has been pruned and saved all the same. *)
Theorem onChange_outcome (view : bool) (value : string) (w : World) :
  let w' := exec (onChange view value) w in
  (result (onChange view value) w = Throw TypeError
   ↔ view = false ∨ (activeFile w = None ∧ recentFiles (data w') ≠ []))
  ∧ (result (onChange view value) w = Return () →
     view_synced w' ∧ redraws w' = S (redraws w))
  ∧ (result (onChange view value) w = Throw TypeError →
     contentEl w' = contentEl w ∧ redraws w' = redraws w ∧ saved w' = saved w ++ [data w']).
Proof.
  intros w'. subst w'. unfold result, exec. rewrite onChange_run.
  destruct view; [|by split_and!; [split; [left|] | |]].
  match goal with |- context [redraw ?x] => set (w2 := x) end.
  destruct (activeFile w) as [openFile|] eqn:Hactive.
  - assert (activeFile w2 = Some openFile) as Hactive2 by done.
    pose proof (redraw_synced w2) as Hsync. unfold result, exec in Hsync.
    rewrite (redraw_run w2 openFile Hactive2) in *. cbn [fst snd] in *.
    split_and!; [|by intros _; apply Hsync|done].
    split; [done | by intros [?|[? _]]].
  - assert (activeFile w2 = None) as Hactive2 by done.
    pose proof (redraw_synced w2) as Hsync. unfold result, exec in Hsync.
    rewrite (redraw_null w2 Hactive2) in *.
    destruct (recentFiles (data w2)) as [|entry l] eqn:Hl;
      cbn [fst snd data contentEl redraws saved] in *.
    + rewrite Hl. split_and!; [|by intros _; apply Hsync|done].
      split; [done | by intros [?|[_ ?]]].
    + split_and!; [|done|done]. split; [intros _|done]. right. by rewrite Hl.
Qed.

Lemma onChange_outcome_witness :
  let w := Scenarios.world [Scenarios.daily; Scenarios.A] [] 5 (Some Scenarios.A) in
  view_synced (exec (onChange true "daily/") w)
  ∧ redraws (exec (onChange true "daily/") w) = 1%nat.
Proof.
  intros w. exact (proj1 (proj2 (onChange_outcome true "daily/" w)) eq_refl).
Defined.

Lemma shouldAddFile_in_lines (d1 d2 : RecentFilesData) (file : File) :
  filter (λ path, (0 < String.length path)%nat) (omittedPaths d1)
  = filter (λ path, (0 < String.length path)%nat) (omittedPaths d2) →
  shouldAddFile_in d1 file = shouldAddFile_in d2 file.
Proof. unfold shouldAddFile_in. by intros ->. Qed.

Lemma split_displayed (l : list string) :
  Forall (λ entry, free_of LF entry = true) l →
  filter (λ path, (0 < String.length path)%nat)
    (JS.split LF (JS.join (String LF EmptyString) l))
  = filter (λ path, (0 < String.length path)%nat) l.
Proof.
  intros Hfree. destruct l as [|x l]; [done|]. by rewrite split_join_cons.
Qed.

(** X5: when no entry of [omittedPaths] holds a line feed, handing the text
    that [display] shows back to [onChange] changes no answer of
    [shouldAddFile]: the list is pruned as [pruneOmittedFiles] alone would
    prune it.  [omittedPaths] itself is the same afterwards unless it was
    empty, in which case it holds one empty line. *)
Theorem onChange_displayed (view : bool) (w : World) :
  Forall (λ entry, free_of LF entry = true) (omittedPaths (data w)) →
  let w' := exec (onChange view (displayed_value (data w))) w in
  (∀ file, shouldAddFile_in (data w') file = shouldAddFile_in (data w) file)
  ∧ recentFiles (data w') = recentFiles (data (exec pruneOmittedFiles w))
  ∧ (omittedPaths (data w) ≠ [] → omittedPaths (data w') = omittedPaths (data w))
  ∧ (omittedPaths (data w) = [] → omittedPaths (data w') = [EmptyString]).
Proof.
  intros Hfree w'. subst w'.
  destruct (onChange_exec view (displayed_value (data w)) w) as (-> & _ & _).
  assert (∀ file,
            shouldAddFile_in
              {| recentFiles := recentFiles (data w);
                 omittedPaths := JS.split LF (displayed_value (data w));
                 maxLength := maxLength (data w) |} file
            = shouldAddFile_in (data w) file) as Hsame.
  { intros file. apply shouldAddFile_in_lines. by apply split_displayed. }
  rewrite pruneOmittedFiles_exec. cbn [recentFiles omittedPaths with_recentFiles].
  split_and!.
  - intros file. rewrite <-Hsame. by apply shouldAddFile_in_lines.
  - apply list_filter_iff. intros file. by rewrite Hsame.
  - unfold displayed_value. destruct (omittedPaths (data w)) as [|x l]; [done|].
    intros _. by apply split_join_cons.
  - unfold displayed_value. by intros ->.
Qed.

Lemma onChange_displayed_witness :
  let w := Scenarios.world [Scenarios.daily; Scenarios.A] ["daily/"%string] 5 None in
  recentFiles (data (exec (onChange true (displayed_value (data w))) w))
  = recentFiles (data (exec pruneOmittedFiles w)).
Proof.
  intros w.
  exact (proj1 (proj2 (onChange_displayed true w ltac:(repeat constructor)))).
Defined.

(** ** The [file-open] handler on a tracked file *)

Lemma accepted (file : File) (w : World) :
  result (shouldAddFile file) w = Return true → shouldAddFile_in (data w) file = true.
Proof. unfold result. rewrite shouldAddFile_run. cbn [fst]. by intros [= ?]. Qed.

Lemma update_run (openedFile : File) (w : World) :
  shouldAddFile_in (data w) openedFile = true →
  update openedFile w = redraw (exec (updateData openedFile) w).
Proof.
  intros Hb. unfold update, mbind, M_bind, exec.
  rewrite shouldAddFile_run, Hb. cbn [negb]. by rewrite updateData_run.
Qed.

Lemma update_run_active (openedFile active : File) (w : World) :
  shouldAddFile_in (data w) openedFile = true →
  activeFile w = Some active →
  let d' := with_recentFiles (data w) (touched (data w) openedFile) in
  update openedFile w =
    (Return (),
     {| data := d'; saved := saved w ++ [d']; activeFile := activeFile w;
        contentEl :=
          [Div ["nav-folder"; "mod-root"]%string None false
             [Div ["nav-folder-children"%string] None false
                (navFile_of active <$> recentFiles d')]];
        redraws := S (redraws w) |}).
Proof.
  intros Hb Hactive d'. rewrite (update_run _ _ Hb). unfold exec.
  rewrite updateData_run. cbn [snd]. by rewrite (redraw_run _ active).
Qed.

Lemma update_run_null (openedFile : File) (w : World) :
  shouldAddFile_in (data w) openedFile = true →
  activeFile w = None →
  1 ≤ maxLength (data w) →
  let d' := with_recentFiles (data w) (touched (data w) openedFile) in
  update openedFile w =
    (Throw TypeError,
     {| data := d'; saved := saved w ++ [d']; activeFile := activeFile w;
        contentEl := contentEl w; redraws := redraws w |}).
Proof.
  intros Hb Hactive Hm d'. rewrite (update_run _ _ Hb). unfold exec.
  rewrite updateData_run. cbn [snd]. rewrite redraw_null by done.
  cbn [data]. subst d'. cbn [recentFiles with_recentFiles].
  by rewrite (touched_pos _ _ Hm).
Qed.

(** X6: for a file that [shouldAddFile] accepts, with some file active,
    [update] returns; the store is the one [updateData] leaves, it has been
    handed to [saveData] once, and the content element, replaced once, shows
    one row per entry of the new list, labelled with its basename. *)
Theorem update_tracked (w : World) (openedFile active : File) :
  result (shouldAddFile openedFile) w = Return true →
  activeFile w = Some active →
  let w' := exec (update openedFile) w in
  result (update openedFile) w = Return ()
  ∧ data w' = data (exec (updateData openedFile) w)
  ∧ saved w' = saved w ++ [data w']
  ∧ redraws w' = S (redraws w)
  ∧ view_synced w'.
Proof.
  intros Hb%accepted Hactive w'. subst w'. unfold result, exec, view_synced.
  rewrite (update_run_active _ _ _ Hb Hactive), updateData_run.
  cbn [fst snd data saved redraws contentEl]. rewrite rendered_rows_root.
  split_and!; [done..|]. rewrite <-list_fmap_compose. by apply list_fmap_ext.
Qed.

Lemma update_tracked_witness :
  let w := Scenarios.world [Scenarios.A; Scenarios.B] [] 2 (Some Scenarios.C) in
  row_label <$> rendered_rows (contentEl (exec (update Scenarios.C) w))
  = (λ entry, Some (basename entry)) <$> recentFiles (data (exec (update Scenarios.C) w)).
Proof.
  intros w.
  pose proof (update_tracked w Scenarios.C Scenarios.C eq_refl eq_refl)
    as (_ & _ & _ & _ & Hview).
  exact Hview.
Defined.

Lemma fmap_const_replicate {A B} (g : A → B) (c : B) (l : list A) :
  Forall (λ x, g x = c) l → g <$> l = replicate (length l) c.
Proof. induction 1 as [|x l Hx _ IH]; [done|]. cbn. by rewrite Hx, IH. Qed.

(** X7: when the opened file is accepted, is the active file by basename,
    and [maxLength >= 1], then after [update] the top row carries the file's
    basename and is the one row marked active. *)
Theorem update_marks_top_row (w : World) (openedFile active : File) :
  result (shouldAddFile openedFile) w = Return true →
  activeFile w = Some active →
  basename active = basename openedFile →
  1 ≤ maxLength (data w) →
  let rows := rendered_rows (contentEl (exec (update openedFile) w)) in
  row_label <$> head rows = Some (Some (basename openedFile))
  ∧ row_active <$> rows = true :: replicate (length rows - 1) false.
Proof.
  intros Hb%accepted Hactive Hbase Hm rows. subst rows.
  unfold exec. rewrite (update_run_active _ _ _ Hb Hactive).
  cbn [snd contentEl recentFiles with_recentFiles]. rewrite rendered_rows_root.
  rewrite (touched_pos _ _ Hm). cbn [fmap list_fmap head option_fmap option_map].
  split; [done|].
  rewrite row_active_navFile_of, (bool_decide_eq_true_2 _ (eq_sym Hbase)).
  f_equal. cbn [length]. rewrite Nat.sub_succ, Nat.sub_0_r.
  rewrite <-list_fmap_compose, !length_fmap.
  apply fmap_const_replicate, Forall_take, Forall_forall.
  intros entry [Hne _]%list_elem_of_filter.
  unfold compose. rewrite row_active_navFile_of.
  apply bool_decide_eq_false_2. congruence.
Qed.

Lemma update_marks_top_row_witness :
  let w := Scenarios.world [Scenarios.A; Scenarios.B; Scenarios.C] [] 3 (Some Scenarios.B) in
  row_active <$> rendered_rows (contentEl (exec (update Scenarios.B) w))
  = [true; false; false].
Proof.
  intros w.
  exact (proj2 (update_marks_top_row w Scenarios.B Scenarios.B
                  eq_refl eq_refl eq_refl ltac:(cbn; lia))).
Defined.

(** X8: when the opened file is accepted, [maxLength >= 1] and no file is
    active, [update] throws; by then the store has been changed by
    [updateData] and handed to [saveData], and the content element is the one
    from before. *)
Theorem update_throws_after_saving (w : World) (openedFile : File) :
  result (shouldAddFile openedFile) w = Return true →
  activeFile w = None →
  1 ≤ maxLength (data w) →
  let w' := exec (update openedFile) w in
  result (update openedFile) w = Throw TypeError
  ∧ data w' = data (exec (updateData openedFile) w)
  ∧ saved w' = saved w ++ [data w']
  ∧ contentEl w' = contentEl w
  ∧ redraws w' = redraws w.
Proof.
  intros Hb%accepted Hactive Hm w'. subst w'. unfold result, exec.
  by rewrite (update_run_null _ _ Hb Hactive Hm), updateData_run.
Qed.

Lemma update_throws_after_saving_witness :
  let w := Scenarios.world [] [] 5 None in
  result (update Scenarios.A) w = Throw TypeError
  ∧ recentFiles (data (exec (update Scenarios.A) w)) = [Scenarios.A].
Proof.
  intros w.
  pose proof (update_throws_after_saving w Scenarios.A eq_refl eq_refl ltac:(cbn; lia))
    as (Hres & Hdata & _).
  split; [exact Hres | by rewrite Hdata].
Defined.

(** ** Invariants along sequences of events *)

Lemma update_skip (openedFile : File) (w : World) :
  shouldAddFile_in (data w) openedFile = false → update openedFile w = (Return (), w).
Proof. intros Hb. unfold update, mbind, M_bind. by rewrite shouldAddFile_run, Hb. Qed.

Lemma update_exec (openedFile : File) (w : World) :
  shouldAddFile_in (data w) openedFile = true →
  let d' := with_recentFiles (data w) (touched (data w) openedFile) in
  data (exec (update openedFile) w) = d'
  ∧ saved (exec (update openedFile) w) = saved w ++ [d'].
Proof.
  intros Hb d'.
  destruct (redraw_frame (exec (updateData openedFile) w)) as (Hdata & Hsaved & _).
  unfold exec in *. rewrite (update_run _ _ Hb). unfold exec.
  rewrite Hdata, Hsaved. by rewrite updateData_run.
Qed.

(** If every event of a sequence keeps [I], then [I] holds in every world
    of the run from a world that satisfies [I]. *)
Lemma run_events_Forall (I : World → Prop) (events : list event) :
  (∀ w e, I w → I (exec (handle e) w)) →
  ∀ w, I w → Forall I (run_events w events).
Proof.
  intros Hstep. induction events as [|e events IH]; intros w Hw; cbn [run_events];
    constructor; auto.
Qed.

Lemma persisted_snoc (w : World) (l : list RecentFilesData) :
  saved w = l ++ [data w] → persisted w.
Proof. unfold persisted. intros ->. apply last_snoc. Qed.

Lemma handle_persisted (e : event) (w : World) :
  (data (exec (handle e) w) = data w ∧ saved (exec (handle e) w) = saved w)
  ∨ persisted (exec (handle e) w).
Proof.
  destruct e as [openedFile|view value|active]; cbn [handle].
  - destruct (shouldAddFile_in (data w) openedFile) eqn:Hb.
    + right. destruct (update_exec _ _ Hb) as [Hdata Hsaved].
      apply (persisted_snoc _ (saved w)). by rewrite Hdata, Hsaved.
    + left. unfold exec. by rewrite (update_skip _ _ Hb).
  - right. destruct (onChange_exec view value w) as (Hdata & Hsaved & _).
    apply (persisted_snoc _ (saved w)). by rewrite Hdata, Hsaved.
  - by left.
Qed.

(** X9: no handler leaves a change of the store unsaved, not even one that
    throws: after an event either store and save log are as before, or the
    last snapshot handed to [saveData] is the store.  So once the store has
    been saved, it equals the last snapshot after every event of every
    sequence. *)
Theorem handlers_persist (w : World) :
  (∀ e, (data (exec (handle e) w) = data w ∧ saved (exec (handle e) w) = saved w)
        ∨ last (saved (exec (handle e) w)) = Some (data (exec (handle e) w)))
  ∧ (last (saved w) = Some (data w) →
     ∀ events, Forall (λ w', last (saved w') = Some (data w')) (run_events w events)).
Proof.
  split; [intros e; apply handle_persisted|].
  intros Hw events. apply (run_events_Forall persisted); [|done].
  intros v e Hv. destruct (handle_persisted e v) as [[Hdata Hsaved]|]; [|done].
  unfold persisted. by rewrite Hdata, Hsaved.
Qed.

Lemma handlers_persist_witness :
  let w := exec (updateData Scenarios.A) (Scenarios.world [] [] 5 None) in
  Forall (λ w', last (saved w') = Some (data w'))
    (run_events w [FileOpen Scenarios.B; OmittedChange false "/b"; Activate (Some Scenarios.C);
                   FileOpen Scenarios.C]).
Proof.
  intros w. exact (proj2 (handlers_persist w) eq_refl _).
Defined.

(** X10: for an integer [maxLength], along every sequence of events,
    handlers that throw included, a list without two entries of one basename
    and of length at most [maxLength] stays so, and [maxLength] never
    changes. *)
Theorem handlers_keep_store_invariants (w : World) (events : list event) :
  NoDup (basename <$> recentFiles (data w)) →
  Z.of_nat (length (recentFiles (data w))) ≤ maxLength (data w) →
  Forall (λ w', NoDup (basename <$> recentFiles (data w'))
                ∧ Z.of_nat (length (recentFiles (data w'))) ≤ maxLength (data w')
                ∧ maxLength (data w') = maxLength (data w))
    (run_events w events).
Proof.
  intros Hnd Hlen.
  apply (run_events_Forall
           (λ w', NoDup (basename <$> recentFiles (data w'))
                  ∧ Z.of_nat (length (recentFiles (data w'))) ≤ maxLength (data w')
                  ∧ maxLength (data w') = maxLength (data w))); [|done].
  clear Hnd Hlen. intros v e (Hnd & Hlen & Hmax).
  destruct e as [openedFile|view value|active]; cbn [handle].
  - destruct (shouldAddFile_in (data v) openedFile) eqn:Hb.
    + destruct (update_exec _ _ Hb) as [-> _]. cbn [recentFiles maxLength with_recentFiles].
      split_and!; [by apply touched_NoDup | apply touched_length; lia | done].
    + unfold exec. by rewrite (update_skip _ _ Hb).
  - destruct (onChange_exec view value v) as (-> & _ & _).
    cbn [recentFiles maxLength with_recentFiles]. split_and!; [| |done].
    + eapply sublist_NoDup; [exact Hnd|]. apply fmap_sublist, sublist_filter.
    + etrans; [|exact Hlen]. apply inj_le, length_filter.
  - done.
Qed.

Lemma handlers_keep_store_invariants_witness :
  let w := Scenarios.world [Scenarios.A; Scenarios.B] [] 2 None in
  Forall (λ w', NoDup (basename <$> recentFiles (data w'))
                ∧ Z.of_nat (length (recentFiles (data w'))) ≤ maxLength (data w')
                ∧ maxLength (data w') = maxLength (data w))
    (run_events w [FileOpen Scenarios.C; OmittedChange true "/c"; FileOpen Scenarios.A']).
Proof.
  intros w.
  apply (handlers_keep_store_invariants w).
  - apply (bool_decide_unpack _). vm_compute. exact I.
  - cbn. lia.
Defined.

(** X11: a handler that returns keeps the view in line with the store: if
    the content element showed one row per entry, labelled with the basename,
    before the event, it does so after it. *)
Theorem handlers_keep_view_synced (e : event) (w : World) :
  view_synced w →
  result (handle e) w = Return () →
  view_synced (exec (handle e) w).
Proof.
  intros Hsync. destruct e as [openedFile|view value|active]; cbn [handle].
  - destruct (shouldAddFile_in (data w) openedFile) eqn:Hb.
    + unfold result, exec. rewrite (update_run _ _ Hb). apply redraw_synced.
    + unfold exec. by rewrite (update_skip _ _ Hb).
  - unfold result, exec. rewrite onChange_run. destruct view; [|done].
    apply redraw_synced.
  - done.
Qed.

Lemma handlers_keep_view_synced_witness :
  let w := Scenarios.world [] [] 5 (Some Scenarios.A) in
  view_synced (exec (handle (FileOpen Scenarios.A)) w).
Proof.
  intros w. exact (handlers_keep_view_synced (FileOpen Scenarios.A) w eq_refl eq_refl).
Defined.

(** A handler that throws can leave the view behind the store. *)
Example stale_view_after_throw :
  let w := exec (handle (OmittedChange false "/a"))
             (exec redraw (Scenarios.world [Scenarios.A] [] 5 (Some Scenarios.A))) in
  recentFiles (data w) = [] ∧ row_label <$> rendered_rows (contentEl w) = [Some "A"%string].
Proof. split; reflexivity. Qed.

(** ** Clicks *)

Lemma append_empty (s : string) : s +:+ EmptyString = s.
Proof.
  induction s as [|c s IH]; [done|].
  change (String c s +:+ EmptyString) with (String c (s +:+ EmptyString)).
  by rewrite IH.
Qed.

Lemma find_cons {A} (P : A → Prop) `{∀ x, Decision (P x)} (x : A) (l : list A) :
  JS.find P (x :: l) = if decide (P x) then Some x else JS.find P l.
Proof.
  unfold JS.find. cbn [list_find]. case_decide; [done|].
  by destruct (list_find P l) as [[i y]|].
Qed.

Lemma find_none {A} (P : A → Prop) `{∀ x, Decision (P x)} (l : list A) :
  Forall (λ x, ¬ P x) l → JS.find P l = None.
Proof.
  induction 1 as [|x l Hx _ IH]; [done|]. by rewrite find_cons, decide_False.
Qed.

Lemma find_by_basename (vault : list File) (entry : File) :
  NoDup (basename <$> vault) →
  entry ∈ vault →
  JS.find (λ file, basename file = basename entry) vault = Some entry.
Proof.
  induction vault as [|x vault IH]; intros Hnd Hin; [by apply elem_of_nil in Hin|].
  rewrite fmap_cons in Hnd. apply NoDup_cons in Hnd as [Hx Hnd].
  rewrite find_cons. apply elem_of_cons in Hin as [->|Hin].
  - by rewrite decide_True.
  - rewrite decide_False; [by apply IH|].
    intros Heq. apply Hx. rewrite Heq. by apply list_elem_of_fmap_2.
Qed.

Lemma click_row (openFile entry : File) (vault : list File) (t : El) :
  t ∈ click_targets (navFile_of openFile entry) →
  handleFileClick vault (Some t)
  = Return (JS.find (λ file, basename file = basename entry) vault).
Proof.
  unfold click_targets, navFile_of. cbn [children_of mbind list_bind app].
  rewrite !elem_of_cons. intros [->|[->|[->|Hin]]].
  - unfold handleFileClick, hasClass. cbn [classes_of children_of lookup list_lookup].
    rewrite bool_decide_eq_false_2 by (apply (bool_decide_unpack _); by vm_compute).
    cbn [getText default]. by rewrite !append_empty.
  - unfold handleFileClick, hasClass. cbn [classes_of children_of lookup list_lookup].
    rewrite bool_decide_eq_false_2
      by (case_decide; apply (bool_decide_unpack _); by vm_compute).
    cbn [getText default]. by rewrite !append_empty.
  - unfold handleFileClick, hasClass. cbn [classes_of children_of].
    rewrite bool_decide_eq_true_2 by left.
    cbn [getText default]. by rewrite !append_empty.
  - by apply elem_of_nil in Hin.
Qed.

Lemma rendered_row_lookup (w : World) (openFile entry : File) (i : nat) (row : El) :
  activeFile w = Some openFile →
  recentFiles (data w) !! i = Some entry →
  rendered_rows (contentEl (exec redraw w)) !! i = Some row →
  row = navFile_of openFile entry.
Proof.
  intros Hactive Hentry. unfold exec. rewrite (redraw_run w openFile Hactive).
  cbn [snd contentEl]. rewrite rendered_rows_root, list_lookup_fmap, Hentry.
  by intros [= <-].
Qed.

(** X12: a click on a drawn row, on the row itself, on its title or on the
    title's content, asks the host to open the first file of the vault whose
    basename is the entry's basename, and nothing when there is none; the
    entry's path plays no part. *)
Theorem click_on_row (w : World) (openFile entry : File) (vault : list File)
    (i : nat) (row t : El) :
  activeFile w = Some openFile →
  recentFiles (data w) !! i = Some entry →
  rendered_rows (contentEl (exec redraw w)) !! i = Some row →
  t ∈ click_targets row →
  handleFileClick vault (Some t)
  = Return (JS.find (λ file, basename file = basename entry) vault).
Proof.
  intros Hactive Hentry Hrow Ht.
  rewrite (rendered_row_lookup w openFile entry i row Hactive Hentry Hrow) in Ht.
  by apply (click_row openFile).
Qed.

Lemma click_on_row_witness :
  let w := Scenarios.world [Scenarios.B; Scenarios.A] [] 5 (Some Scenarios.B) in
  handleFileClick [Scenarios.A'; Scenarios.A; Scenarios.B]
    (Some (navFile_of Scenarios.B Scenarios.A))
  = Return (Some Scenarios.A').
Proof.
  intros w.
  exact (click_on_row w Scenarios.B Scenarios.A [Scenarios.A'; Scenarios.A; Scenarios.B]
           1 (navFile_of Scenarios.B Scenarios.A) (navFile_of Scenarios.B Scenarios.A)
           eq_refl eq_refl eq_refl ltac:(left)).
Defined.

(** X13: when the basenames of the vault are pairwise different and the
    entry is a file of the vault, a click on its row opens exactly that file;
    when the vault has no file of that basename any more, the click opens
    nothing and does not throw. *)
Theorem click_opens_entry (w : World) (openFile entry : File) (vault : list File)
    (i : nat) (row t : El) :
  activeFile w = Some openFile →
  recentFiles (data w) !! i = Some entry →
  rendered_rows (contentEl (exec redraw w)) !! i = Some row →
  t ∈ click_targets row →
  (NoDup (basename <$> vault) → entry ∈ vault →
   handleFileClick vault (Some t) = Return (Some entry))
  ∧ (Forall (λ file, basename file ≠ basename entry) vault →
     handleFileClick vault (Some t) = Return None).
Proof.
  intros Hactive Hentry Hrow Ht.
  rewrite (rendered_row_lookup w openFile entry i row Hactive Hentry Hrow) in Ht.
  rewrite (click_row openFile entry vault t Ht). split.
  - intros Hnd Hin. by rewrite find_by_basename.
  - intros Hnone. by rewrite find_none.
Qed.

Lemma click_opens_entry_witness :
  let w := Scenarios.world [Scenarios.B; Scenarios.A] [] 5 (Some Scenarios.B) in
  handleFileClick [Scenarios.C; Scenarios.A; Scenarios.B]
    (Some (navFile_of Scenarios.B Scenarios.A))
  = Return (Some Scenarios.A).
Proof.
  intros w.
  refine (proj1 (click_opens_entry w Scenarios.B Scenarios.A
                   [Scenarios.C; Scenarios.A; Scenarios.B]
                   1 (navFile_of Scenarios.B Scenarios.A) (navFile_of Scenarios.B Scenarios.A)
                   eq_refl eq_refl eq_refl ltac:(left)) _ _).
  - apply (bool_decide_unpack _). vm_compute. exact I.
  - right. left.
Defined.

(** ** More on [updateData] *)

Lemma filter_all {A} (P : A → Prop) `{∀ x, Decision (P x)} (l : list A) :
  Forall P l → filter P l = l.
Proof. induction 1 as [|x l Hx _ IH]; [done|]. by rewrite filter_cons_True, IH. Qed.

Lemma fresh_basename (file : File) (l : list File) :
  basename file ∉ basename <$> l →
  filter (λ currFile, basename currFile ≠ basename file) l = l.
Proof.
  intros Hfresh. apply filter_all, Forall_forall. intros e He Heq.
  apply Hfresh. rewrite <-Heq. by apply list_elem_of_fmap_2.
Qed.

(** X14: with a negative [maxLength] the trim does not empty the list: of
    the new entry and the earlier entries with another basename it drops
    the [-maxLength] last ones, or all when there are fewer. *)
Theorem updateData_negative_maxLength (w : World) (file : File) :
  maxLength (data w) < 0 →
  let l := {| path := path file; basename := basename file |}
           :: filter (λ currFile, basename currFile ≠ basename file) (recentFiles (data w)) in
  recentFiles (data (exec (updateData file) w))
  = take (Z.to_nat (Z.of_nat (length l) + maxLength (data w))) l.
Proof.
  intros Hm l. subst l. store_after. rewrite entry_eta. unfold touched, kept.
  rewrite decide_False by lia. by rewrite decide_True.
Qed.

Lemma updateData_negative_maxLength_witness :
  recentFiles (data (exec (updateData Scenarios.A)
                       (Scenarios.world [Scenarios.B; Scenarios.C] [] (-1) None)))
  = [Scenarios.A; Scenarios.B].
Proof.
  exact (updateData_negative_maxLength
           (Scenarios.world [Scenarios.B; Scenarios.C] [] (-1) None) Scenarios.A
           ltac:(cbn; lia)).
Defined.

(** X15: [updateData] on the file whose entry is already first, in a list
    with no other entry of that basename and within [maxLength], leaves the
    store as it is, and still hands it to [saveData]. *)
Theorem updateData_head_again (w : World) (file : File) (rest : list File) :
  recentFiles (data w) = {| path := path file; basename := basename file |} :: rest →
  basename file ∉ basename <$> rest →
  Z.of_nat (length (recentFiles (data w))) ≤ maxLength (data w) →
  data (exec (updateData file) w) = data w
  ∧ saved (exec (updateData file) w) = saved w ++ [data w].
Proof.
  rewrite entry_eta. intros Hl Hfresh Hlen.
  assert (touched (data w) file = recentFiles (data w)) as Htouched.
  { unfold touched. rewrite Hl in *.
    rewrite filter_cons_False by (by intros Hne; apply Hne).
    rewrite (fresh_basename _ _ Hfresh). unfold kept.
    rewrite decide_True by done. by rewrite firstn_all. }
  unfold exec. rewrite updateData_run. cbn [snd data saved].
  rewrite Htouched. unfold with_recentFiles. by destruct (data w).
Qed.

Lemma updateData_head_again_witness :
  let w := Scenarios.world [Scenarios.A; Scenarios.B] [] 2 None in
  data (exec (updateData Scenarios.A) w) = data w.
Proof.
  intros w.
  refine (proj1 (updateData_head_again w Scenarios.A [Scenarios.B] eq_refl _ _)).
  - apply (bool_decide_unpack _). vm_compute. exact I.
  - cbn. lia.
Defined.

(** X16: [updateData] on a file whose basename is not in the list puts its
    entry in front of the whole list when there is room, and in front of
    all but the last entry when the list is full: only the oldest entry is
    evicted. *)
Theorem updateData_fresh (w : World) (file : File) :
  basename file ∉ basename <$> recentFiles (data w) →
  let before := recentFiles (data w) in
  let after := recentFiles (data (exec (updateData file) w)) in
  (Z.of_nat (length before) < maxLength (data w) →
   after = {| path := path file; basename := basename file |} :: before)
  ∧ (Z.of_nat (length before) = maxLength (data w) → 1 ≤ maxLength (data w) →
     after = {| path := path file; basename := basename file |}
             :: take (length before - 1) before).
Proof.
  intros Hfresh before after. subst before after. store_after.
  rewrite entry_eta. unfold touched. rewrite (fresh_basename _ _ Hfresh). split.
  - intros Hlen. unfold kept. rewrite decide_True by (cbn [length]; lia).
    by rewrite firstn_all.
  - intros Hlen Hm. rewrite kept_nonneg by lia. cbn [length].
    rewrite Nat.min_l by lia.
    replace (Z.to_nat (maxLength (data w)))
      with (S (length (recentFiles (data w)) - 1)) by lia.
    done.
Qed.

Lemma updateData_fresh_witness :
  let w := Scenarios.world [Scenarios.B; Scenarios.A] [] 2 None in
  recentFiles (data (exec (updateData Scenarios.C) w)) = [Scenarios.C; Scenarios.B].
Proof.
  intros w.
  refine (proj2 (updateData_fresh w Scenarios.C _) eq_refl ltac:(cbn; lia)).
  apply (bool_decide_unpack _). vm_compute. exact I.
Defined.

(** X17: whatever [maxLength] is, [updateData] brings no entry into the
    list but the new one and reorders nothing else: the list afterwards is a
    sublist of the new entry followed by the earlier list, so it is at most
    one entry longer. *)
Theorem updateData_sublist (w : World) (file : File) :
  let before := recentFiles (data w) in
  let after := recentFiles (data (exec (updateData file) w)) in
  after `sublist_of` {| path := path file; basename := basename file |} :: before
  ∧ (length after ≤ S (length before))%nat.
Proof.
  intros before after. subst before after. store_after. rewrite entry_eta.
  assert (touched (data w) file `sublist_of` file :: recentFiles (data w)) as Hsub.
  { unfold touched. etrans; [apply sublist_take|].
    apply sublist_skip, sublist_filter. }
  split; [done|]. by apply sublist_length in Hsub.
Qed.

(** ** More on [pruneOmittedFiles] and [shouldAddFile] *)

(** X18: [pruneOmittedFiles] removes the entries some non-empty omitted path
    is a prefix of and no other: an entry is in the list afterwards exactly
    when it was in it and is not excluded, the order is kept, and when
    [omittedPaths] holds no non-empty line the list is as before. *)
Theorem pruneOmittedFiles_removes_excluded (w : World) :
  let before := recentFiles (data w) in
  let after := recentFiles (data (exec pruneOmittedFiles w)) in
  after `sublist_of` before
  ∧ (∀ entry, entry ∈ after ↔ entry ∈ before ∧ ¬ ∃ p, excluded_by (data w) entry p)
  ∧ (Forall (λ p, p = EmptyString) (omittedPaths (data w)) → after = before).
Proof.
  intros before after. subst before after. store_after. split_and!.
  - apply sublist_filter.
  - intros entry. rewrite list_elem_of_filter, shouldAddFile_in_true.
    split.
    + intros [Hnone Hin]. split; [done|]. intros [p Hp]. by apply (Hnone p).
    + intros [Hin Hnone]. split; [|done]. intros p Hp. apply Hnone. by exists p.
  - intros Hempty. apply filter_all, Forall_forall. intros entry _.
    apply shouldAddFile_in_true. intros p (Hin & Hne & _).
    by apply (proj1 (Forall_forall _ _) Hempty p) in Hin.
Qed.

Lemma pruneOmittedFiles_removes_excluded_witness :
  let w := Scenarios.world [Scenarios.daily; Scenarios.A] [""; ""]%string 5 None in
  recentFiles (data (exec pruneOmittedFiles w)) = recentFiles (data w).
Proof.
  intros w.
  exact (proj2 (proj2 (pruneOmittedFiles_removes_excluded w)) ltac:(repeat constructor)).
Defined.

(** X19: the answer of [shouldAddFile] depends on the file's path and on
    which strings occur in [omittedPaths], not on the file's basename, the
    order of the omitted paths or their repetition. *)
Theorem shouldAddFile_set (d1 d2 : RecentFilesData) (file1 file2 : File) :
  path file1 = path file2 →
  (∀ p, p ∈ omittedPaths d1 ↔ p ∈ omittedPaths d2) →
  shouldAddFile_in d1 file1 = shouldAddFile_in d2 file2.
Proof.
  intros Hpath Hset. apply Bool.eq_true_iff_eq.
  rewrite !shouldAddFile_in_true. unfold excluded_by.
  split; intros Hnone p (Hin & Hne & Hpre); apply (Hnone p);
    (split_and!; [by apply Hset | done | congruence]).
Qed.

Lemma shouldAddFile_set_witness :
  shouldAddFile_in
    {| recentFiles := []; omittedPaths := ["tmp/"; "daily/"; "tmp/"]%string; maxLength := 5 |}
    Scenarios.daily
  = shouldAddFile_in
      {| recentFiles := [Scenarios.A]; omittedPaths := ["daily/"; "tmp/"]%string;
         maxLength := 2 |}
      {| path := "daily/2024-01-01"; basename := "other" |}.
Proof.
  apply shouldAddFile_set; [reflexivity|].
  intros p. cbn [omittedPaths]. rewrite !elem_of_cons, !elem_of_nil. tauto.
Defined.

Lemma append_assoc (s1 s2 s3 : string) : (s1 +:+ s2) +:+ s3 = s1 +:+ (s2 +:+ s3).
Proof.
  induction s1 as [|c s1 IH]; [done|].
  change (String c s1 +:+ s2) with (String c (s1 +:+ s2)).
  change (String c (s1 +:+ s2) +:+ s3) with (String c ((s1 +:+ s2) +:+ s3)).
  by rewrite IH.
Qed.

Lemma startsWith_trans (s1 s2 s3 : string) :
  JS.startsWith s1 s2 = true → JS.startsWith s2 s3 = true → JS.startsWith s1 s3 = true.
Proof.
  rewrite !startsWith_spec. intros [t1 ->] [t2 ->]. exists (t2 +:+ t1).
  apply append_assoc.
Qed.

(** X20: exclusion goes down the tree and grows with [omittedPaths]: a file
    whose path starts with the path of a file [shouldAddFile] rejects is
    rejected too, and a file rejected under some omitted paths stays rejected
    when more are added. *)
Theorem shouldAddFile_monotone (d d' : RecentFilesData) (file file' : File) :
  shouldAddFile_in d file = false →
  (JS.startsWith (path file') (path file) = true → shouldAddFile_in d file' = false)
  ∧ ((∀ p, p ∈ omittedPaths d → p ∈ omittedPaths d') → shouldAddFile_in d' file = false).
Proof.
  rewrite !shouldAddFile_in_false. intros (p & Hin & Hne & Hpre). split.
  - intros Hbelow. exists p. split_and!; [done..|]. by eapply startsWith_trans.
  - intros Hmore. exists p. split_and!; [by apply Hmore | done..].
Qed.

Lemma shouldAddFile_monotone_witness :
  shouldAddFile_in (data (Scenarios.world [] ["daily/"%string] 5 None))
    {| path := "daily/2024-01-01/notes"; basename := "notes" |}
  = false.
Proof.
  exact (proj1 (shouldAddFile_monotone (data (Scenarios.world [] ["daily/"%string] 5 None))
                  (data (Scenarios.world [] ["daily/"%string] 5 None))
                  Scenarios.daily
                  {| path := "daily/2024-01-01/notes"; basename := "notes" |} eq_refl)
           eq_refl).
Defined.

(** ** Restart *)

(** X21: a change of the store made by any handler survives a restart:
    when an event has changed the store, loading the last snapshot handed to
    [saveData] into a freshly evaluated module gives that store. *)
Theorem restart_restores_store (e : event) (w : World) (active : option File) :
  data (exec (handle e) w) ≠ data w →
  ∃ snapshot,
    last (saved (exec (handle e) w)) = Some snapshot
    ∧ data (exec (loadData (Some (blob_of snapshot))) (module_init active))
      = data (exec (handle e) w).
Proof.
  intros Hchanged. destruct (handle_persisted e w) as [[Hdata _]|Hsaved]; [done|].
  exists (data (exec (handle e) w)). split; [done|].
  by destruct (data (exec (handle e) w)).
Qed.

Lemma restart_restores_store_witness :
  let w := Scenarios.world [Scenarios.A] [] 5 (Some Scenarios.B) in
  ∃ snapshot,
    last (saved (exec (handle (FileOpen Scenarios.B)) w)) = Some snapshot
    ∧ data (exec (loadData (Some (blob_of snapshot))) (module_init None))
      = data (exec (handle (FileOpen Scenarios.B)) w).
Proof.
  intros w.
  apply (restart_restores_store (FileOpen Scenarios.B) w None).
  vm_compute. discriminate.
Defined.
